(** * Roll groups module (scripts/module.mjs): a shallow embedding

    JavaScript values are modelled by the cases the functions below can
    meet; strings are Rocq strings whose characters stand for UTF-16 code
    units 0..255 (the Latin-1 block); host objects (items, actors, the
    system configuration) are records holding the fields the code reads. *)

From Stdlib Require Import ZArith String Ascii List Bool Lia.
From Stdlib Require Import Numbers.DecimalString Numbers.DecimalPos.
Import ListNotations.

Open Scope string_scope.

(* ------------------------------------------------------------------ *)
(** ** JavaScript values and conversions *)

(** The values the [add] argument of [scaleDiceFormula] can take: integer
    numbers, and the falsy non-numbers [null], [undefined] and [NaN]. *)
Inductive jsval :=
| JNum (z : Z)
| JNull
| JUndefined
| JNaN.

(** [!!v] (ToBoolean). *)
Definition js_truthy (v : jsval) : bool :=
  match v with
  | JNum z => negb (Z.eqb z 0)
  | _ => false
  end.

(** [String(n)] / template interpolation of an integer number, as its
    plain decimal digits. This is what [String] prints for a safe integer
    (see [is_safe_integer]); JavaScript numbers are doubles, and beyond
    that range [String] prints the shortest round-trip digits, from
    [1e21] in exponent form. *)
Definition js_number_to_string (z : Z) : string :=
  NilEmpty.string_of_int (Z.to_int z).

(** [Number.MAX_SAFE_INTEGER = 2^53 - 1]. An integer [z] with
    [|z| <= 2^53 - 1] is a double, sums of two such doubles whose result
    is again in the range are exact, and [String] prints it as plain
    decimal: the integer model below agrees with the code there. *)
Definition max_safe_integer : Z := 9007199254740991.

Definition is_safe_integer (z : Z) : Prop :=
  (- max_safe_integer <= z <= max_safe_integer)%Z.

(** [Number(s)] for a string of decimal digits ([\d+] captures only), as
    its exact value. [Number] rounds to the nearest double, which is the
    exact value when that value is a safe integer. *)
Definition digit_value (c : ascii) : Z := Z.of_nat (nat_of_ascii c - 48)%nat.

Fixpoint digits_value_acc (acc : Z) (s : string) : Z :=
  match s with
  | EmptyString => acc
  | String c s' => digits_value_acc (10 * acc + digit_value c)%Z s'
  end.

Definition js_Number_digits (s : string) : Z := digits_value_acc 0 s.

(* ------------------------------------------------------------------ *)
(** ** The regex of [scaleDiceFormula]

    Written with spaces between its tokens:
    [/ ^ ( \s* ) ( \d+ ) \s* d \s* ( \d+ ) ( .* ) $ /i]. *)

(** [\s] on code units 0..255: TAB, LF, VT, FF, CR, SPACE and NBSP. *)
Definition is_space (c : ascii) : bool :=
  let n := nat_of_ascii c in
  (((9 <=? n) && (n <=? 13)) || (n =? 32) || (n =? 160))%nat.

(** [\d]: ASCII digits only. *)
Definition is_digit (c : ascii) : bool :=
  let n := nat_of_ascii c in ((48 <=? n) && (n <=? 57))%nat.

(** [.] matches everything but the line terminators (LF and CR below 256). *)
Definition is_line_terminator (c : ascii) : bool :=
  let n := nat_of_ascii c in ((n =? 10) || (n =? 13))%nat.

(** [d] under the [i] flag. *)
Definition is_d (c : ascii) : bool :=
  Ascii.eqb c "d"%char || Ascii.eqb c "D"%char.

(** Longest prefix whose characters satisfy [p], and the remainder. *)
Fixpoint span (p : ascii -> bool) (s : string) : string * string :=
  match s with
  | EmptyString => (EmptyString, EmptyString)
  | String c s' =>
      if p c then let (a, b) := span p s' in (String c a, b)
      else (EmptyString, s)
  end.

Fixpoint all_chars (p : ascii -> bool) (s : string) : bool :=
  match s with
  | EmptyString => true
  | String c s' => p c && all_chars p s'
  end.

Record dice_match := {
  m_leading : string;   (* m[1] *)
  m_count : string;     (* m[2] *)
  m_sides : string;     (* m[3] *)
  m_rest : string       (* m[4] *)
}.

(** [formula.match(...)] with the regex above.
    Taking every quantifier greedily without backtracking gives the same
    result as the backtracking matcher: each greedy run is followed by a
    token that cannot match a character of the run ([\s*] by a digit,
    [\d+] by a space or [d], [\s*] by [d] or a digit), and the last [\d+]
    is followed by [( .* ) $], which fails for every split when it fails for
    the longest one. *)
Definition match_dice (s : string) : option dice_match :=
  let (lead, s1) := span is_space s in
  let (count, s2) := span is_digit s1 in
  if String.eqb count "" then None else
  let (_, s3) := span is_space s2 in
  match s3 with
  | EmptyString => None
  | String c s4 =>
      if is_d c then
        let (_, s5) := span is_space s4 in
        let (sides, rest) := span is_digit s5 in
        if String.eqb sides "" then None
        else if all_chars (fun c => negb (is_line_terminator c)) rest
        then Some {| m_leading := lead; m_count := count;
                     m_sides := sides; m_rest := rest |}
        else None
      else None
  end.

(** [s] is empty or its first character fails [p]. *)
Definition starts_fail (p : ascii -> bool) (s : string) : bool :=
  match s with
  | EmptyString => true
  | String c _ => negb (p c)
  end.

(** [Module.scaleDiceFormula(formula, add)]. The first test is
    [!add || add === 0]. The new count [Number(m[2]) + add] is computed on
    integers; it is the code's double sum, printed the same way, when the
    count, [add] and the sum are safe integers ([is_safe_integer]). *)
Definition scaleDiceFormula (formula : string) (add : jsval) : string :=
  match add with
  | JNum a =>
      if Z.eqb a 0 then formula
      else
        match match_dice formula with
        | Some m =>
            let newCount := (js_Number_digits (m_count m) + a)%Z in
            m_leading m ++ js_number_to_string newCount ++ "d"
              ++ m_sides m ++ m_rest m
        | None => formula ++ " + " ++ js_number_to_string a
        end
  | _ => formula
  end.

(** ** Spec-side reading of "begins with a leading dice term [NdM]":
    optional leading whitespace, a count, the letter [d] in either case,
    a die size, with optional whitespace around the letter. *)
Definition begins_with_dice (s : string) : Prop :=
  exists ws0 n ws1 dc ws2 m rest,
    all_chars is_space ws0 = true /\ n <> "" /\ all_chars is_digit n = true /\
    all_chars is_space ws1 = true /\ is_d dc = true /\
    all_chars is_space ws2 = true /\ m <> "" /\ all_chars is_digit m = true /\
    s = (ws0 ++ n ++ ws1 ++ String dc (ws2 ++ m ++ rest))%string.


(* ------------------------------------------------------------------ *)
(** ** Items and their roll-group configuration *)

(** [Number(v)] on an entry of a group's [parts] list: [Some k] when the
    result is the integer [k] ([Number(null)] is [0]), [None] for [NaN]. *)
Definition js_Number (v : jsval) : option Z :=
  match v with
  | JNum z => Some z
  | JNull => Some 0%Z
  | JUndefined | JNaN => None
  end.

(** A damage part [[formula, type]] of [item.system.damage.parts]. *)
Record part := {
  p_formula : string;
  p_type : option string
}.

(** An entry of [flags.rollgroups.config.groups]: [{label, parts}]. *)
Record group := {
  g_label : option string;
  g_parts : option (list jsval)
}.

(** [flags.rollgroups.config]; [None] stands for a missing property. *)
Record config := {
  c_groups : option (list group);
  c_versatile : option jsval;
  c_bladeCantrip : bool;
  c_saves : option (list string)
}.

Record item := {
  it_config : option config;            (* item.flags.rollgroups?.config *)
  it_parts : option (list part);        (* item.system?.damage?.parts *)
  it_hasSave : bool;                    (* item.hasSave *)
  it_save_ability : option string;      (* item.system.save?.ability *)
  it_saveDC : Z                         (* item.getSaveDC?.() ?? save.dc ?? 10 *)
}.

(** [config?.groups ?? []]. *)
Definition groups_of (it : item) : list group :=
  match it_config it with
  | Some c => match c_groups c with Some gs => gs | None => [] end
  | None => []
  end%list.

(** [arr[i]] for a number [i]: [undefined] out of range. *)
Definition js_index {A} (l : list A) (i : Z) : option A :=
  if (0 <=? i)%Z then nth_error l (Z.to_nat i) else None.

(** [item.system?.damage?.parts ?? []]. *)
Definition parts_of (it : item) : list part :=
  match it_parts it with Some ps => ps | None => [] end%list.

(** Side effects on the host that the functions below perform. *)
Inductive roll_target :=
| OnItem                          (* the item itself *)
| OnClone (parts : list part).    (* [constructClone(item, parts)] *)

Record roll_args := {
  ra_critical : bool;
  ra_event : option string;
  ra_spellLevel : option Z;
  ra_versatile : bool;
  ra_options : list (string * string)
}.

Inductive effect :=
| NotifyError (key : string)      (* ui.notifications.error(localize(key)) *)
| ConsoleError (msg : string).    (* console.error(msg, err) *)

(* ------------------------------------------------------------------ *)
(** ** [Module.constructParts] *)

(** [new Set(raw.map(n => Number(n))).has(i)]: [Set.prototype.has] uses
    SameValueZero, under which [NaN] never equals an index. *)
Definition set_has (indices : list (option Z)) (i : Z) : bool :=
  existsb (fun o => match o with Some k => Z.eqb k i | None => false end)
    indices.

(** [arr.reduce((acc, x, i) => ..., init)]. *)
Fixpoint reduce_idx {A B} (f : B -> A -> Z -> B) (acc : B) (l : list A)
    (i : Z) : B :=
  match l with
  | [] => acc
  | x :: l' => reduce_idx f (f acc x i) l' (i + 1)%Z
  end%list.

Inductive cp_result :=
| CPFalse
| CPParts (l : list part).

Definition constructParts (it : item) (idx : Z) : list effect * cp_result :=
  let raw := match js_index (groups_of it) idx with
             | Some g => match g_parts g with Some r => r | None => [] end
             | None => []
             end%list in
  let indices := map js_Number raw in
  let grp := reduce_idx (fun acc p i => if set_has indices i
                                        then (acc ++ [p])%list else acc)
               [] (parts_of it) 0%Z in
  match grp with
  | [] => ([NotifyError "ROLLGROUPS.RollGroupEmpty"], CPFalse)
  | _ => ([], CPParts grp)
  end%list.

(** Spec-side reading of the selection: the index list of group [idx]
    ([groups?.[idx]?.parts ?? []]), position [i] being listed when some
    entry coerced with [Number] equals it, and the parts at listed
    positions in array order. *)
Definition group_raw (it : item) (idx : Z) : list jsval :=
  match js_index (groups_of it) idx with
  | Some g => match g_parts g with Some r => r | None => [] end
  | None => []
  end%list.

Definition listed (raw : list jsval) (i : nat) : bool :=
  existsb (fun v => match js_Number v with
                    | Some k => Z.eqb k (Z.of_nat i)
                    | None => false
                    end) raw.

Definition selected_parts (ps : list part) (raw : list jsval) : list part :=
  map snd (filter (fun ip => listed raw (fst ip)) (combine (seq 0 (length ps)) ps)).

(* ------------------------------------------------------------------ *)
(** ** [Module.rollDamageGroup] (installed as [Item#rollDamageGroup]) *)

(** The value the (async) method resolves to: the result of a
    [rollDamage] call on a target, or [null]. *)
Inductive rdg_result :=
| RRollDamage (target : roll_target) (args : roll_args)
| RNull.

Definition rollDamageGroup (this : item) (rollgroup : Z) (args : roll_args)
    : list effect * rdg_result :=
  let grp := groups_of this in
  match grp with
  | [] => ([], RRollDamage OnItem args)
  | _ =>
      let indices := match js_index grp rollgroup with
                     | Some g => g_parts g
                     | None => None
                     end in
      match indices with
      | None | Some [] => ([NotifyError "ROLLGROUPS.RollGroupEmpty"], RNull)
      | Some _ =>
          match constructParts this rollgroup with
          | (fx, CPFalse) => (fx, RNull)
          | (fx, CPParts ps) => (fx, RRollDamage (OnClone ps) args)
          end
      end
  end%list.

(* ------------------------------------------------------------------ *)
(** ** The host system configuration and the [in] operator *)

(** The properties every plain object inherits from [Object.prototype]. *)
Definition object_prototype_keys : list string :=
  ["constructor"; "__defineGetter__"; "__defineSetter__"; "hasOwnProperty";
   "__lookupGetter__"; "__lookupSetter__"; "isPrototypeOf";
   "propertyIsEnumerable"; "toString"; "valueOf"; "__proto__";
   "toLocaleString"]%list.

(** [key in obj] for a plain object with own keys [own]: own properties
    and inherited ones. *)
Definition js_in (key : string) (own : list string) : bool :=
  existsb (String.eqb key) own || existsb (String.eqb key) object_prototype_keys.

(** [CONFIG[system]]: the fields the module reads. *)
Record sys_config := {
  sys_damageTypes : list string;                 (* own keys *)
  sys_healingTypes : list string;                (* own keys *)
  sys_abilities : list (string * string)         (* key, label *)
}.

(* ------------------------------------------------------------------ *)
(** ** [Module.createDamageButtons] *)

Inductive button_kind := BDamage | BHealing | BMixed.

(** A [<button data-action="rollgroup-damage">] of the returned HTML. *)
Record damage_button := {
  db_group : Z;                 (* data-group *)
  db_kind : button_kind;        (* icon and localized label *)
  db_label : option string      (* "(label)" when the label is truthy *)
}.

(** [!!s] for a string. *)
Definition str_truthy (s : string) : bool := negb (String.eqb s "").

(** [validParts[t]?.[1]] for an entry [t] of a group's parts. *)
Definition part_type_at (validParts : list part) (t : jsval) : option string :=
  match t with
  | JNum z => match js_index validParts z with
              | Some p => p_type p
              | None => None
              end
  | _ => None
  end.

(** [types.every(t => t && (t in table))]. *)
Definition every_in (types : list (option string)) (table : list string) : bool :=
  forallb (fun t => match t with
                    | Some s => str_truthy s && js_in s table
                    | None => false
                    end) types.

Definition make_damage_button (sys : sys_config) (validParts : list part)
    (g : group) (idx : Z) : damage_button :=
  let types := map (part_type_at validParts)
                 (match g_parts g with Some l => l | None => [] end%list) in
  let isDamage := every_in types (sys_damageTypes sys) in
  let isHealing := every_in types (sys_healingTypes sys) in
  {| db_group := idx;
     db_kind := if isDamage then BDamage else if isHealing then BHealing else BMixed;
     db_label := match g_label g with
                 | Some l => if str_truthy l then Some l else None
                 | None => None
                 end |}.

(** The returned [group.innerHTML] is modelled by the list of buttons the
    [DIV] holds; [None] is [null]. *)
Definition createDamageButtons (sys : sys_config) (it : item)
    : option (list damage_button) :=
  let validParts := filter (fun p => str_truthy (p_formula p)) (parts_of it) in
  let hasGroups :=
    match it_config it with
    | Some c => match c_groups c with
                | Some gs => Nat.ltb 0 (length gs)
                | None => false
                end
    | None => false
    end && Nat.ltb 1 (length validParts) in
  if negb hasGroups then None
  else Some (reduce_idx (fun acc g idx =>
                          (acc ++ [make_damage_button sys validParts g idx])%list)
                       [] (groups_of it) 0%Z).

(* ------------------------------------------------------------------ *)
(** ** [Module.createSaveButtons] *)

Record save_button := {
  sb_ability : string;          (* data-ability *)
  sb_dc : Z;                    (* data-dc *)
  sb_label : option string      (* CONFIG[system].abilities[abi].label *)
}.

Definition lookup_label (abilities : list (string * string)) (k : string)
    : option string :=
  match find (fun kv => String.eqb (fst kv) k) abilities with
  | Some kv => Some (snd kv)
  | None => None
  end.

(** [abi !== item.system.save?.ability]. *)
Definition neq_save (abi : string) (save : option string) : bool :=
  match save with
  | Some s => negb (String.eqb abi s)
  | None => true
  end.

Definition createSaveButtons (sys : sys_config) (it : item)
    : option (list save_button) :=
  if negb (it_hasSave it) then None else
  let configured := match it_config it with
                    | Some c => match c_saves c with Some l => l | None => [] end
                    | None => []
                    end%list in
  let saves := filter (fun abi => neq_save abi (it_save_ability it)
                                  && js_in abi (map fst (sys_abilities sys)))
                 configured in
  match saves with
  | [] => None
  | _ => Some (map (fun abi => {| sb_ability := abi; sb_dc := it_saveDC it;
                                  sb_label := lookup_label (sys_abilities sys) abi |})
                   saves)
  end%list.

(* ------------------------------------------------------------------ *)
(** ** [WeaponPicker#_scaleCantripDamage] *)

Record actor_details := {
  ad_level : option Z;          (* system.details.level *)
  ad_spellLevel : option Z      (* system.details.spellLevel *)
}.

Record cantrip_damage := {
  cd_parts : list string;
  cd_type : option string
}.

(** [this.cantrip] and [this.actor?.system?.details]; [None] for a missing
    object. The increment is the integer quotient [(level + 1) / 6]
    rounded down, which is what [Math.floor] of the double division gives
    for a safe-integer level ([is_safe_integer]). *)
Definition _scaleCantripDamage (cantrip : option item)
    (details : option actor_details) : cantrip_damage :=
  let ps := match cantrip with Some c => parts_of c | None => [] end%list in
  match ps with
  | [] => {| cd_parts := []; cd_type := None |}
  | part :: _ =>
      let level := match details with
                   | Some d => match ad_level d with
                               | Some l => l
                               | None => match ad_spellLevel d with
                                         | Some l => l
                                         | None => 1%Z
                                         end
                               end
                   | None => 1%Z
                   end in
      let add := ((level + 1) / 6)%Z in
      let formula := scaleDiceFormula (p_formula part) (JNum add) in
      {| cd_parts := [formula]; cd_type := p_type part |}
  end%list.

(* ------------------------------------------------------------------ *)
(** ** Hook handlers: [createChatLogListeners] and [createConfigButton] *)

(** An element of a rendered fragment, with what the selectors test. *)
Record node := {
  n_action : option string;     (* data-action *)
  n_has_dc : bool;              (* has a data-dc attribute *)
  n_classes : list string;
  n_name : option string        (* name attribute *)
}.

(** The [html] argument a render hook receives: nothing, an
    [HTMLElement] (given by its descendants), a jQuery object wrapping one
    element, or another object without [querySelector]. *)
Inductive html_arg :=
| HFalsy
| HElement (descendants : list node)
| HJQuery (descendants : list node)
| HOther.

(** How a JavaScript call completes. *)
Inductive completion (A : Type) :=
| Ret (a : A)
| Throw (err : string).
Arguments Ret {A} a.
Arguments Throw {A} err.

Inductive hook_effect :=
| AddListener (node_pos : nat) (listener : string)
| InsertConfigButton
| InsertSaveConfigButton
| LogError (msg : string).

(** [try { body } catch (err) { handler(err) }]. *)
Definition js_try {A} (body : completion A) (handler : string -> A) : A :=
  match body with
  | Ret a => a
  | Throw e => handler e
  end.

Definition action_has_prefix (pre : string) (n : node) : bool :=
  match n_action n with Some a => String.prefix pre a | None => false end.

(** [root.querySelectorAll(sel).forEach(n => n.addEventListener(...))]. *)
Definition listen_all (ns : list node) (sel : node -> bool) (listener : string)
    : list hook_effect :=
  map (fun pn => AddListener (fst pn) listener)
      (filter (fun pn => sel (snd pn)) (combine (seq 0 (length ns)) ns)).

Definition is_save_with_dc (n : node) : bool :=
  match n_action n with
  | Some a => String.eqb a "save" && n_has_dc n
  | None => false
  end.

(** [Module.createChatLogListeners(message, html)] (hook
    [renderChatMessage]); it has no [try]. Calling [querySelectorAll] on
    an object without that method throws a [TypeError]. *)
Definition createChatLogListeners (html : html_arg)
    : completion (list hook_effect) :=
  match html with
  | HFalsy => Ret []
  | HElement ns =>
      Ret (listen_all ns (action_has_prefix "rollgroup-damage") "rollDamageFromChat"
           ++ listen_all ns (action_has_prefix "rollgroup-bladecantrip")
                "pickEquippedWeapon"
           ++ listen_all ns is_save_with_dc "saveThrow")%list
  | HJQuery _ | HOther =>
      Throw "TypeError: html.querySelectorAll is not a function"
  end.

(** The normalisation of [html] at the top of [createConfigButton]:
    an element, the first element of a non-empty jQuery object, or
    [null]. *)
Definition normalize_root (html : html_arg) : option (list node) :=
  match html with
  | HFalsy => None
  | HElement ns => Some ns
  | HJQuery ns => Some ns
  | HOther => None
  end.

(** [Module.createConfigButton(sheet, html)] (hook [renderItemSheet]). *)
Definition createConfigButton (html : html_arg) : completion (list hook_effect) :=
  Ret (js_try
         (match normalize_root html with
          | None => Ret []
          | Some ns =>
              Ret ((if existsb (fun n => existsb (String.eqb "add-damage") (n_classes n)) ns
                    then [InsertConfigButton] else [])
                   ++ (if existsb (fun n => match n_name n with
                                            | Some nm => String.eqb nm "system.save.scaling"
                                            | None => false
                                            end) ns
                       then [InsertSaveConfigButton] else []))%list
          end)
         (fun err => [LogError ("rollgroups | createConfigButton error " ++ err)])).

(* ------------------------------------------------------------------ *)
(** ** [SaveConfig]: the extra saving-throw form *)

(** A row of the form: [{value, name, label, disabled}]. *)
Record save_row := {
  sr_value : bool;
  sr_name : string;
  sr_label : string;
  sr_disabled : bool
}.

(** [SaveConfig#_prepareContext]: one row per entry of
    [CONFIG[system].abilities], checked when the key is in the stored
    [saves] ([new Set(saves ?? [])]). *)
Definition saveConfig_context (abilities : list (string * string))
    (save_ability : option string) (saves : option (list string))
    : list save_row :=
  let configSet := match saves with Some l => l | None => [] end%list in
  map (fun kd => {| sr_value := existsb (String.eqb (fst kd)) configSet;
                    sr_name := "flags.rollgroups.config.saves." ++ fst kd;
                    sr_label := snd kd;
                    sr_disabled := match save_ability with
                                   | Some s => String.eqb (fst kd) s
                                   | None => false
                                   end |}) abilities.

(** [SaveConfig#_prepareSubmitData]: the keys of the submitted
    [flags.rollgroups.config.saves] object whose checkbox is set, in entry
    order. *)
Definition saveConfig_submit (entries : list (string * bool)) : list string :=
  map fst (filter snd entries).

(* ------------------------------------------------------------------ *)
(** ** [GroupConfig]: the roll-group form *)

(** A submitted group [{label, parts}]: [parts] maps a part index, as the
    decimal key written in the checkbox name, to the checkbox value. *)
Record form_group := {
  fg_label : option string;
  fg_parts : option (list (string * bool))
}.

(** [GroupConfig#_prepareSubmitData] on [Object.values(raw)]: the label
    falls back to the localized placeholder, the parts become the numbers
    of the checked keys. The keys are the decimal indices written by
    [_prepareContext], for which [Number(k)] is [js_Number_digits k]. *)
Definition groupConfig_submit (placeholder : string) (raw : list form_group)
    : list group :=
  map (fun fg =>
         let label := match fg_label fg with Some l => l | None => "" end in
         let parts := match fg_parts fg with Some ps => ps | None => [] end%list in
         {| g_label := Some (if str_truthy label then label else placeholder);
            g_parts := Some (map (fun kv => JNum (js_Number_digits (fst kv)))
                                 (filter snd parts)) |}) raw.

(** A checkbox row of [GroupConfig#_prepareContext] for group [i] and
    damage part [idx]. *)
Record group_row := {
  gr_checked : bool;
  gr_name : string
}.

Definition groupConfig_rows (nparts : nat) (i : nat) (g : group) : list group_row :=
  let raw := match g_parts g with Some r => r | None => [] end%list in
  map (fun idx => {| gr_checked := listed raw idx;
                     gr_name := "flags.rollgroups.config.groups."
                                ++ js_number_to_string (Z.of_nat i) ++ ".parts."
                                ++ js_number_to_string (Z.of_nat idx) |})
      (seq 0 nparts).

(** [document.setFlag("rollgroups", "config.groups", gs)]: the other
    configuration fields are kept. *)
Definition set_groups (it : item) (gs : list group) : item :=
  {| it_config := Some (match it_config it with
                        | Some c => {| c_groups := Some gs; c_versatile := c_versatile c;
                                       c_bladeCantrip := c_bladeCantrip c;
                                       c_saves := c_saves c |}
                        | None => {| c_groups := Some gs; c_versatile := None;
                                     c_bladeCantrip := false; c_saves := None |}
                        end);
     it_parts := it_parts it; it_hasSave := it_hasSave it;
     it_save_ability := it_save_ability it; it_saveDC := it_saveDC it |}.

(** [GroupConfig._onAddGroup]: [groups.push({label: "", parts: []})]. *)
Definition onAddGroup (it : item) : item :=
  set_groups it (groups_of it ++ [{| g_label := Some ""; g_parts := Some [] |}])%list.

(** The start index of [arr.splice(v, 1)]: [ToIntegerOrInfinity(v)]
    ([NaN] and [null] give 0), counted from the end when negative, clamped
    to [[0, len]]. *)
Definition splice_start (len : nat) (v : jsval) : nat :=
  let s := match v with JNum z => z | _ => 0%Z end in
  if (s <? 0)%Z then Z.to_nat (Z.max (Z.of_nat len + s) 0)
  else Z.to_nat (Z.min s (Z.of_nat len)).

(** [arr.splice(v, 1)] on the array, returning the array left. *)
Definition splice1 {A} (l : list A) (v : jsval) : list A :=
  let st := splice_start (length l) v in
  (firstn st l ++ skipn (S st) l)%list.

(** [GroupConfig._onDeleteGroup] with [v = Number(target.closest("[data-idx]")?.dataset?.idx)]. *)
Definition onDeleteGroup (it : item) (v : jsval) : item :=
  set_groups it (splice1 (groups_of it) v).

(* ------------------------------------------------------------------ *)
(** ** [Module.variantDamageLabels] *)

Record vd_item := {
  vd_name : string;
  vd_derived_types : list string;         (* getDerivedDamageLabel().map(i => i.damageType) *)
  vd_damageTypes_label : option string    (* item.labels?.damageTypes *)
}.

(** [new Set(l)] keeps the first occurrence of each value. *)
Fixpoint dedup (l : list string) : list string :=
  match l with
  | [] => []
  | x :: l' => x :: filter (fun y => negb (String.eqb x y)) (dedup l')
  end%list.

(** The [{title, flavor}] merged into the roll configuration, [None] when
    [item] is falsy. [loc] is [game.i18n.localize] and [sysKey] is
    [game.system.id.toUpperCase()]. *)
Definition variantDamageLabels (loc : string -> string) (sysKey : string)
    (sys : sys_config) (item : option vd_item) : option (string * string) :=
  match item with
  | None => None
  | Some it =>
      let labels := dedup (vd_derived_types it) in
      let isTemp := Nat.eqb (length labels) 1
                    && existsb (String.eqb "temphp") labels in
      let key := if forallb (fun t => js_in t (sys_healingTypes sys)) labels
                 then sysKey ++ ".Healing" else sysKey ++ ".DamageRoll" in
      let title := vd_name it ++ " - " ++ loc key in
      let flavor :=
        if isTemp then title ++ " (" ++ loc (sysKey ++ ".Temp") ++ ")"
        else match vd_damageTypes_label it with
             | Some l => if Nat.ltb 0 (String.length l)
                         then title ++ " (" ++ l ++ ")" else title
             | None => title
             end in
      Some (title, flavor)
  end.

(* ------------------------------------------------------------------ *)
(** ** [Module.pickEquippedWeapon] and the [WeaponPicker] it opens *)

(** An item of the actor, with the fields the picker reads. *)
Record actor_item := {
  ai_type : string;             (* item.type *)
  ai_equipped : bool;           (* !!item.system?.equipped *)
  ai_hasAttack : bool;          (* item.hasAttack *)
  ai_hasDamage : bool;          (* item.hasDamage *)
  ai_isVersatile : bool;        (* item.isVersatile *)
  ai_item : item
}.

(** [WeaponPicker#constructor]: [this.equippedWeapons], with
    [isNPC = (this.actor?.type === "npc")]. *)
Definition equippedWeapons (isNPC : bool) (items : list actor_item)
    : list actor_item :=
  filter (fun w => String.eqb (ai_type w) "weapon" && (isNPC || ai_equipped w)
                   && ai_hasAttack w && ai_hasDamage w) items.

(** [s.endsWith(suffix)]. *)
Definition ends_with (suffix s : string) : bool :=
  Nat.leb (String.length suffix) (String.length s)
  && String.eqb (substring (String.length s - String.length suffix)
                           (String.length suffix) s) suffix.

(** Truthiness of the [innerHTML] string returned by [createDamageButtons]:
    [null] and the empty string are falsy. *)
Definition html_truthy (o : option (list damage_button)) : bool :=
  match o with
  | Some (_ :: _) => true
  | _ => false
  end.

Inductive pick_outcome :=
| PickWarn                                  (* warn "NoEquippedWeapons", null *)
| PickRender                                (* picker.render(true) *)
| PickAttack (w : item)                     (* weps[0].rollAttack?.({event}) *)
| PickDamage (w : item) (rollConfigs : cantrip_damage).
                                            (* weps[0].rollDamage?.(...) *)

(** [action] is [event.currentTarget.dataset.action]; [cantrip] and
    [details] are what the picker's [_scaleCantripDamage] reads. *)
Definition pickEquippedWeapon (sys : sys_config) (isNPC : bool)
    (items : list actor_item) (action : option string)
    (cantrip : option item) (details : option actor_details) : pick_outcome :=
  match equippedWeapons isNPC items with
  | [] => PickWarn
  | [w] =>
      if ends_with "attack" (match action with Some a => a | None => "" end)
      then PickAttack (ai_item w)
      else if ai_isVersatile w || html_truthy (createDamageButtons sys (ai_item w))
      then PickRender
      else PickDamage (ai_item w) (_scaleCantripDamage cantrip details)
  | _ => PickRender
  end%list.


(* ------------------------------------------------------------------ *)
(** ** Reading back a printed count *)

(** The value of a [Decimal.uint], most significant digit first. *)
Fixpoint uint_val_acc (acc : Z) (d : Decimal.uint) : Z :=
  match d with
  | Decimal.Nil => acc
  | Decimal.D0 l => uint_val_acc (10 * acc + 0) l
  | Decimal.D1 l => uint_val_acc (10 * acc + 1) l
  | Decimal.D2 l => uint_val_acc (10 * acc + 2) l
  | Decimal.D3 l => uint_val_acc (10 * acc + 3) l
  | Decimal.D4 l => uint_val_acc (10 * acc + 4) l
  | Decimal.D5 l => uint_val_acc (10 * acc + 5) l
  | Decimal.D6 l => uint_val_acc (10 * acc + 6) l
  | Decimal.D7 l => uint_val_acc (10 * acc + 7) l
  | Decimal.D8 l => uint_val_acc (10 * acc + 8) l
  | Decimal.D9 l => uint_val_acc (10 * acc + 9) l
  end%Z.

(* ------------------------------------------------------------------ *)
(** ** Subsequences *)

(** [l1] is [l2] with some elements left out, the rest in order. *)
Inductive subseq {A : Type} : list A -> list A -> Prop :=
| subseq_nil : subseq [] []
| subseq_skip x l1 l2 : subseq l1 l2 -> subseq l1 (x :: l2)
| subseq_keep x l1 l2 : subseq l1 l2 -> subseq (x :: l1) (x :: l2).

(* ------------------------------------------------------------------ *)
(** ** Sample inputs *)

Definition sample_args : roll_args :=
  {| ra_critical := true; ra_event := None; ra_spellLevel := Some 2%Z;
     ra_versatile := false; ra_options := [] |}.

Definition sample_item (gs : option (list group)) : item :=
  {| it_config := Some {| c_groups := gs; c_versatile := None;
                          c_bladeCantrip := false; c_saves := None |};
     it_parts := Some [{| p_formula := "1d6"; p_type := Some "fire" |};
                       {| p_formula := "2d4"; p_type := Some "cold" |}];
     it_hasSave := false; it_save_ability := None; it_saveDC := 10 |}.

(** A dnd5e-like configuration: the six abilities. *)
Definition dnd_config : sys_config :=
  {| sys_damageTypes := ["fire"; "cold"];
     sys_healingTypes := ["healing"; "temphp"];
     sys_abilities := [("str", "Strength"); ("dex", "Dexterity");
                       ("con", "Constitution"); ("int", "Intelligence");
                       ("wis", "Wisdom"); ("cha", "Charisma")] |}%list.

Definition save_item (saves : list string) : item :=
  {| it_config := Some {| c_groups := None; c_versatile := None;
                          c_bladeCantrip := false; c_saves := Some saves |};
     it_parts := Some [{| p_formula := "1d6"; p_type := Some "fire" |}];
     it_hasSave := true; it_save_ability := Some "dex"; it_saveDC := 14 |}.

(* ================================================================== *)
(** * Properties *)

(** ** Lemmas on strings and the character classes *)

Lemma str_app_nil : forall s, (s ++ "")%string = s.
Proof. induction s as [|c s IH]; simpl; [reflexivity | now rewrite IH]. Qed.

Lemma str_app_assoc : forall a b c, ((a ++ b) ++ c)%string = (a ++ (b ++ c))%string.
Proof. induction a as [|x a IH]; intros; simpl; [reflexivity | now rewrite IH]. Qed.

Lemma all_chars_app : forall p a b,
  all_chars p (a ++ b) = all_chars p a && all_chars p b.
Proof.
  induction a as [|c a IH]; intros b; simpl; [reflexivity|].
  rewrite IH. now rewrite andb_assoc.
Qed.

Lemma span_all_app : forall p a b,
  all_chars p a = true ->
  span p (a ++ b) = ((a ++ fst (span p b))%string, snd (span p b)).
Proof.
  induction a as [|c a IH]; intros b Ha; simpl in *.
  - now destruct (span p b).
  - apply andb_prop in Ha as [Hc Ha]. rewrite Hc, (IH b Ha).
    reflexivity.
Qed.

Lemma span_stop : forall p c s, p c = false -> span p (String c s) = ("", String c s).
Proof. intros p c s H. simpl. now rewrite H. Qed.

Lemma span_split : forall p s, (fst (span p s) ++ snd (span p s))%string = s.
Proof.
  induction s as [|c s IH]; simpl; [reflexivity|].
  destruct (p c); simpl; [|reflexivity].
  destruct (span p s) as [a b]; simpl in *. now rewrite IH.
Qed.

Lemma span_fst_all : forall p s, all_chars p (fst (span p s)) = true.
Proof.
  induction s as [|c s IH]; simpl; [reflexivity|].
  destruct (p c) eqn:Hc; simpl; [|reflexivity].
  destruct (span p s) as [a b]; simpl in *. now rewrite Hc, IH.
Qed.

Lemma span_snd_head : forall p s c s',
  snd (span p s) = String c s' -> p c = false.
Proof.
  induction s as [|x s IH]; simpl; intros c s' H; [discriminate|].
  destruct (p x) eqn:Hx.
  - destruct (span p s) as [a b] eqn:E; simpl in *.
    now apply (IH c s').
  - simpl in H. now injection H as -> _.
Qed.

Lemma all_chars_span_snd : forall q p s,
  all_chars q s = true -> all_chars q (snd (span p s)) = true.
Proof.
  intros q p s H. rewrite <- (span_split p s) in H.
  rewrite all_chars_app in H. now apply andb_prop in H as [_ H].
Qed.

Lemma digit_not_space : forall c, is_digit c = true -> is_space c = false.
Proof.
  unfold is_digit, is_space. intros c H.
  apply andb_prop in H as [H1 H2]. apply Nat.leb_le in H1, H2.
  destruct (9 <=? nat_of_ascii c)%nat eqn:E1, (nat_of_ascii c <=? 13)%nat eqn:E2,
    (nat_of_ascii c =? 32)%nat eqn:E3, (nat_of_ascii c =? 160)%nat eqn:E4;
    simpl; try reflexivity;
    repeat match goal with
           | E : (_ <=? _)%nat = true |- _ => apply Nat.leb_le in E
           | E : (_ =? _)%nat = true |- _ => apply Nat.eqb_eq in E
           end; lia.
Qed.

Lemma d_not_space : forall c, is_d c = true -> is_space c = false.
Proof.
  unfold is_d. intros c H. apply orb_prop in H as [H|H];
  apply Ascii.eqb_eq in H; now subst.
Qed.

Lemma d_not_digit : forall c, is_d c = true -> is_digit c = false.
Proof.
  unfold is_d. intros c H. apply orb_prop in H as [H|H];
  apply Ascii.eqb_eq in H; now subst.
Qed.

Lemma space_not_digit : forall c, is_space c = true -> is_digit c = false.
Proof.
  intros c H. destruct (is_digit c) eqn:E; [|reflexivity].
  now rewrite (digit_not_space c E) in H.
Qed.

Lemma span_app_stop : forall p a b,
  all_chars p a = true -> starts_fail p b = true -> span p (a ++ b) = (a, b).
Proof.
  intros p a b Ha Hb. rewrite (span_all_app p a b Ha).
  destruct b as [|c b]; simpl in *; [now rewrite str_app_nil|].
  apply negb_true_iff in Hb. rewrite Hb. simpl. now rewrite str_app_nil.
Qed.

Lemma starts_fail_app : forall (q p : ascii -> bool) a b,
  a <> "" -> all_chars q a = true -> (forall c, q c = true -> p c = false) ->
  starts_fail p (a ++ b) = true.
Proof.
  intros q p a b Hne Ha Hqp. destruct a as [|c a]; [congruence|].
  simpl in *. apply andb_prop in Ha as [Hc _]. now rewrite (Hqp c Hc).
Qed.

Lemma match_dice_decomp : forall ws0 n ws1 dc ws2 m rest,
  all_chars is_space ws0 = true -> n <> "" -> all_chars is_digit n = true ->
  all_chars is_space ws1 = true -> is_d dc = true ->
  all_chars is_space ws2 = true -> m <> "" -> all_chars is_digit m = true ->
  all_chars (fun c => negb (is_line_terminator c)) rest = true ->
  match_dice (ws0 ++ n ++ ws1 ++ String dc (ws2 ++ m ++ rest)) =
  Some {| m_leading := ws0; m_count := n;
          m_sides := m ++ fst (span is_digit rest);
          m_rest := snd (span is_digit rest) |}.
Proof.
  intros ws0 n ws1 dc ws2 m rest H0 Hn Hnd H1 Hd H2 Hm Hmd Hr.
  unfold match_dice.
  rewrite (span_app_stop is_space ws0) by
    (try assumption; apply (starts_fail_app is_digit); auto using digit_not_space).
  rewrite (span_app_stop is_digit n).
  2: exact Hnd.
  2: { destruct ws1 as [|c ws1]; simpl.
       - now rewrite (d_not_digit dc Hd).
       - simpl in H1. apply andb_prop in H1 as [Hc _].
         now rewrite (space_not_digit c Hc). }
  destruct (String.eqb_spec n ""); [congruence|].
  rewrite (span_app_stop is_space ws1) by (try assumption; simpl; now rewrite (d_not_space dc Hd)).
  rewrite Hd.
  rewrite (span_app_stop is_space ws2) by
    (try assumption; apply (starts_fail_app is_digit); auto using digit_not_space).
  rewrite (span_all_app is_digit m rest Hmd).
  destruct (String.eqb_spec (m ++ fst (span is_digit rest)) "") as [E|_].
  { destruct m; [congruence | discriminate]. }
  now rewrite (all_chars_span_snd _ is_digit rest Hr).
Qed.

Lemma span_eq_split : forall p s a b,
  span p s = (a, b) -> s = (a ++ b)%string /\ all_chars p a = true.
Proof.
  intros p s a b E. split.
  - rewrite <- (span_split p s), E. reflexivity.
  - pose proof (span_fst_all p s) as H. now rewrite E in H.
Qed.

Lemma match_dice_some_begins : forall s r,
  match_dice s = Some r -> begins_with_dice s.
Proof.
  intros s r H. unfold match_dice in H.
  destruct (span is_space s) as [lead s1] eqn:E1.
  destruct (span is_digit s1) as [count s2] eqn:E2.
  destruct (String.eqb_spec count "") as [|Hc]; [discriminate|].
  destruct (span is_space s2) as [w1 s3] eqn:E3.
  destruct s3 as [|c s4]; [discriminate|].
  destruct (is_d c) eqn:Hd; [|discriminate].
  destruct (span is_space s4) as [w2 s5] eqn:E4.
  destruct (span is_digit s5) as [sides rest] eqn:E5.
  destruct (String.eqb_spec sides "") as [|Hs]; [discriminate|].
  apply span_eq_split in E1 as [-> A1], E2 as [-> A2], E3 as [-> A3],
    E4 as [-> A4], E5 as [-> A5].
  exists lead, count, w1, c, w2, sides, rest. repeat split; assumption.
Qed.

(** ** [scaleDiceFormula] *)

(** Hand-traced runs of the rewrite. *)
Example scale_ex2 : scaleDiceFormula " 10 D 6 + 1d4" (JNum (-3)) = " 7d6 + 1d4".
Proof. reflexivity. Qed.
Example scale_ex3 : scaleDiceFormula "5" (JNum (-2)) = "5 + -2".
Proof. reflexivity. Qed.

(** C1 (as stated) fails: the rewrite does not touch the count alone; it
    writes the letter as a lowercase [d] and drops the whitespace around
    it. On ["1D8"] with offset 1 the result is ["2d8"], not ["2D8"]. *)
Lemma scaleDiceFormula_only_count_counterexample :
  ~ (forall ws0 n ws1 dc ws2 m rest a,
       all_chars is_space ws0 = true -> n <> "" -> all_chars is_digit n = true ->
       all_chars is_space ws1 = true -> is_d dc = true ->
       all_chars is_space ws2 = true -> m <> "" -> all_chars is_digit m = true ->
       a <> 0%Z ->
       scaleDiceFormula (ws0 ++ n ++ ws1 ++ String dc (ws2 ++ m ++ rest)) (JNum a)
       = (ws0 ++ js_number_to_string (js_Number_digits n + a)
            ++ ws1 ++ String dc (ws2 ++ m ++ rest))%string).
Proof.
  intro H.
  specialize (H "" "1" "" "D"%char "" "8" "" 1%Z).
  assert (E : scaleDiceFormula "1D8" (JNum 1) = "2D8")
    by (apply H; (reflexivity || discriminate)).
  vm_compute in E. discriminate E.
Qed.

(** C1 (amended): for a formula made of optional leading whitespace, a
    count [N], optional whitespace, [d] or [D], optional whitespace, a die
    size [M] and a remainder without line breaks, and a nonzero integer
    offset [a], with [N], [a] and [N + a] safe integers (absolute value at
    most [2^53 - 1], where the code's double arithmetic and printing are
    exact), the result is the leading whitespace, [N + a], a lowercase
    [d], [M] and the remainder: the count is rewritten, the die size and
    the remainder are kept, and the whitespace around the letter is
    dropped. *)
Theorem scaleDiceFormula_leading_dice : forall ws0 n ws1 dc ws2 m rest a,
  all_chars is_space ws0 = true -> n <> "" -> all_chars is_digit n = true ->
  all_chars is_space ws1 = true -> is_d dc = true ->
  all_chars is_space ws2 = true -> m <> "" -> all_chars is_digit m = true ->
  all_chars (fun c => negb (is_line_terminator c)) rest = true ->
  a <> 0%Z ->
  is_safe_integer (js_Number_digits n) -> is_safe_integer a ->
  is_safe_integer (js_Number_digits n + a) ->
  scaleDiceFormula (ws0 ++ n ++ ws1 ++ String dc (ws2 ++ m ++ rest)) (JNum a)
  = (ws0 ++ js_number_to_string (js_Number_digits n + a) ++ "d" ++ m ++ rest)%string.
Proof.
  intros ws0 n ws1 dc ws2 m rest a H0 Hn Hnd H1 Hd H2 Hm Hmd Hr Ha _ _ _.
  unfold scaleDiceFormula.
  apply Z.eqb_neq in Ha. rewrite Ha.
  rewrite (match_dice_decomp ws0 n ws1 dc ws2 m rest) by assumption.
  cbn [m_leading m_count m_sides m_rest].
  rewrite str_app_assoc, span_split. reflexivity.
Qed.

Lemma scaleDiceFormula_leading_dice_witness :
  scaleDiceFormula " 2 d 6 + 1" (JNum 2) = " 4d6 + 1".
Proof.
  apply (scaleDiceFormula_leading_dice " " "2" " " "d"%char " " "6" " + 1" 2);
    (reflexivity || discriminate || (unfold is_safe_integer, max_safe_integer; vm_compute; split; intros Hc; discriminate Hc)).
Defined.

(** C2: a formula that does not begin (after optional whitespace) with a
    dice term [NdM] gets the nonzero integer offset appended:
    [formula + " + " + a]. *)
Theorem scaleDiceFormula_fallback : forall formula a,
  a <> 0%Z -> ~ begins_with_dice formula ->
  scaleDiceFormula formula (JNum a)
  = (formula ++ " + " ++ js_number_to_string a)%string.
Proof.
  intros formula a Ha Hb. unfold scaleDiceFormula.
  apply Z.eqb_neq in Ha. rewrite Ha.
  destruct (match_dice formula) as [r|] eqn:E; [|reflexivity].
  exfalso. exact (Hb (match_dice_some_begins formula r E)).
Qed.

Lemma scaleDiceFormula_fallback_witness :
  scaleDiceFormula "1 + d8" (JNum 1) = "1 + d8 + 1".
Proof.
  apply scaleDiceFormula_fallback; [discriminate|].
  intros (ws0 & n & ws1 & dc & ws2 & m & rest & H0 & Hn & Hnd & H1 & Hd & H2 & Hm & Hmd & E).
  (* the count is "1"; after it come a space and '+', which is neither
     whitespace nor [d] *)
  destruct ws0 as [|c0 ws0].
  2: { simpl in E. injection E as Ec _. subst c0. discriminate H0. }
  destruct n as [|c1 n]; [congruence|].
  simpl in E. injection E as Ec E. subst c1.
  destruct n as [|c2 n].
  2: { simpl in E. injection E as Ec _. subst c2. simpl in Hnd. discriminate Hnd. }
  destruct ws1 as [|c3 ws1]; simpl in E.
  - injection E as Ec _. subst dc. discriminate Hd.
  - injection E as Ec E. subst c3.
    destruct ws1 as [|c4 ws1]; simpl in E.
    + injection E as Ec _. subst dc. discriminate Hd.
    + injection E as Ec _. subst c4. simpl in H1. discriminate H1.
Defined.

(** C3: ["1d8+2"] with increment 1 becomes ["2d8+2"]. *)
Theorem scaleDiceFormula_1d8_plus_2 : scaleDiceFormula "1d8+2" (JNum 1) = "2d8+2".
Proof. reflexivity. Qed.

(** C8: a falsy increment ([0], [null], [undefined], [NaN]) leaves every
    formula unchanged. *)
Theorem scaleDiceFormula_falsy_identity : forall formula add,
  js_truthy add = false -> scaleDiceFormula formula add = formula.
Proof.
  intros formula [z| | |] H; simpl in *; try reflexivity.
  apply negb_false_iff, Z.eqb_eq in H. subst z. reflexivity.
Qed.

Lemma scaleDiceFormula_falsy_identity_witness :
  scaleDiceFormula "1d8+2" (JNum 0) = "1d8+2" /\
  scaleDiceFormula "1d8+2" JUndefined = "1d8+2".
Proof.
  split; apply scaleDiceFormula_falsy_identity; reflexivity.
Defined.

(** ** [constructParts] *)

Lemma set_has_listed : forall raw i,
  set_has (map js_Number raw) (Z.of_nat i) = listed raw i.
Proof.
  induction raw as [|v raw IH]; intros i; simpl; [reflexivity|].
  now rewrite IH.
Qed.

Lemma reduce_idx_select : forall indices (l acc : list part) k,
  reduce_idx (fun acc p i => if set_has indices i then (acc ++ [p])%list else acc)
    acc l (Z.of_nat k)
  = (acc ++ map snd (filter (fun ip => set_has indices (Z.of_nat (fst ip)))
                        (combine (seq k (length l)) l)))%list.
Proof.
  intros indices. induction l as [|x l IH]; intros acc k; simpl.
  - now rewrite app_nil_r.
  - replace (Z.of_nat k + 1)%Z with (Z.of_nat (S k)) by lia.
    rewrite IH. destruct (set_has indices (Z.of_nat k)); simpl.
    + now rewrite <- app_assoc.
    + reflexivity.
Qed.

Lemma in_combine_seq_lt : forall {A} (l : list A) k i x,
  In (i, x) (combine (seq k (length l)) l) -> (k <= i < k + length l)%nat.
Proof.
  intros A l k i x H. apply in_combine_l, in_seq in H. exact H.
Qed.

(** C4: [constructParts(item, idx)] keeps exactly the damage parts whose
    position is listed (after [Number]) in group [idx], in array order; if
    none is kept it raises the "RollGroupEmpty" notification and returns
    [false]. A listed index that is not a position of the parts array
    changes nothing. *)
Theorem constructParts_selects_listed : forall it idx,
  constructParts it idx =
    match selected_parts (parts_of it) (group_raw it idx) with
    | [] => ([NotifyError "ROLLGROUPS.RollGroupEmpty"], CPFalse)
    | sel => ([], CPParts sel)
    end%list
  /\ forall v,
       match js_Number v with
       | Some k => (k < 0 \/ Z.of_nat (length (parts_of it)) <= k)%Z
       | None => True
       end ->
       selected_parts (parts_of it) (group_raw it idx ++ [v])
       = selected_parts (parts_of it) (group_raw it idx).
Proof.
  intros it idx. split.
  - unfold constructParts, selected_parts. fold (group_raw it idx).
    change 0%Z with (Z.of_nat 0).
    rewrite reduce_idx_select. simpl app.
    rewrite (filter_ext _ (fun ip => listed (group_raw it idx) (fst ip)))
      by (intros [i p]; apply set_has_listed).
    now destruct (map snd _).
  - intros v Hv. unfold selected_parts. f_equal.
    apply filter_ext_in. intros [i p] Hin.
    apply in_combine_seq_lt in Hin. simpl.
    unfold listed. rewrite existsb_app. simpl.
    destruct (js_Number v) as [k|]; simpl; [|now rewrite orb_false_r].
    replace (Z.eqb k (Z.of_nat i)) with false by (symmetry; apply Z.eqb_neq; lia).
    now rewrite orb_false_r.
Qed.

Lemma constructParts_selects_listed_witness :
  let it := {| it_config := Some {| c_groups := Some [{| g_label := None;
                                        g_parts := Some [JNum 1; JNum 7] |}];
                                    c_versatile := None; c_bladeCantrip := false;
                                    c_saves := None |};
               it_parts := Some [{| p_formula := "1d6"; p_type := Some "fire" |};
                                 {| p_formula := "2d4"; p_type := Some "cold" |}];
               it_hasSave := false; it_save_ability := None; it_saveDC := 10 |} in
  selected_parts (parts_of it) (group_raw it 0 ++ [JNum 5])
  = selected_parts (parts_of it) (group_raw it 0).
Proof.
  intros it. apply (proj2 (constructParts_selects_listed it 0%Z) (JNum 5)).
  simpl. lia.
Defined.

(** ** [rollDamageGroup] *)

(** C5: with no configured groups, [rollDamageGroup] calls the item's own
    [rollDamage] with the same arguments; with groups, when the selected
    group's parts list is missing or empty, it raises the "RollGroupEmpty"
    notification and returns [null]. *)
Theorem rollDamageGroup_empty_config : forall it rollgroup args,
  (groups_of it = [] ->
   rollDamageGroup it rollgroup args = ([], RRollDamage OnItem args))
  /\ (groups_of it <> [] ->
      match js_index (groups_of it) rollgroup with
      | Some g => g_parts g
      | None => None
      end = None \/
      match js_index (groups_of it) rollgroup with
      | Some g => g_parts g
      | None => None
      end = Some [] ->
      rollDamageGroup it rollgroup args
      = ([NotifyError "ROLLGROUPS.RollGroupEmpty"], RNull))%list.
Proof.
  intros it rollgroup args. unfold rollDamageGroup. split.
  - intros ->. reflexivity.
  - intros Hne Hsel. destruct (groups_of it) as [|g gs] eqn:Eg; [congruence|].
    destruct Hsel as [-> | ->]; reflexivity.
Qed.

Lemma rollDamageGroup_empty_config_witness :
  rollDamageGroup (sample_item None) 0 sample_args
    = ([], RRollDamage OnItem sample_args) /\
  rollDamageGroup (sample_item (Some [{| g_label := None; g_parts := Some [] |}]))
    0 sample_args
    = ([NotifyError "ROLLGROUPS.RollGroupEmpty"], RNull).
Proof.
  split.
  - apply (proj1 (rollDamageGroup_empty_config (sample_item None) 0 sample_args)).
    reflexivity.
  - apply (proj2 (rollDamageGroup_empty_config _ 0 sample_args)).
    + discriminate.
    + right. reflexivity.
Defined.

(** ** [createDamageButtons] *)

(** C6: [createDamageButtons] returns [null] exactly when no group is
    configured or at most one damage part has a non-empty formula; it
    returns button HTML exactly when there is a group and at least two
    such parts. *)
Theorem createDamageButtons_null_iff : forall sys it,
  (createDamageButtons sys it = None <->
   groups_of it = [] \/
   (length (filter (fun p => negb (String.eqb (p_formula p) "")) (parts_of it)) <= 1)%nat)
  /\
  (createDamageButtons sys it <> None <->
   (0 < length (groups_of it))%nat /\
   (2 <= length (filter (fun p => negb (String.eqb (p_formula p) "")) (parts_of it)))%nat).
Proof.
  intros sys it.
  assert (Hg : match it_config it with
               | Some c => match c_groups c with
                           | Some gs => Nat.ltb 0 (length gs)
                           | None => false
                           end
               | None => false
               end = Nat.ltb 0 (length (groups_of it))).
  { unfold groups_of. destruct (it_config it) as [c|]; [|reflexivity].
    destruct (c_groups c); reflexivity. }
  unfold createDamageButtons, str_truthy. rewrite Hg.
  set (n := length (filter _ (parts_of it))).
  rewrite <- length_zero_iff_nil.
  destruct (Nat.ltb_spec 0 (length (groups_of it))), (Nat.ltb_spec 1 n); simpl;
    split; split; intros Hc;
    solve [ reflexivity | discriminate | lia | (exfalso; lia)
          | (exfalso; apply Hc; reflexivity) | (left; lia) | (right; lia)
          | (split; lia) ].
Qed.

(** ** [_scaleCantripDamage] *)

(** C9 (as stated) fails: the level is not "the actor's level or 1". When
    [details.level] is missing the code reads [details.spellLevel] first.
    An actor with [spellLevel = 11] and no [level] gets increment 2, where
    the claim's default level 1 gives increment 0. *)
Lemma scaleCantripDamage_level_counterexample :
  ~ (forall cantrip details,
       _scaleCantripDamage cantrip details =
       match (match cantrip with Some c => parts_of c | None => [] end) with
       | [] => {| cd_parts := []; cd_type := None |}
       | part :: _ =>
           let L := match details with
                    | Some d => match ad_level d with Some l => l | None => 1%Z end
                    | None => 1%Z
                    end in
           {| cd_parts := [scaleDiceFormula (p_formula part) (JNum ((L + 1) / 6))];
              cd_type := p_type part |}
       end)%list.
Proof.
  intro H.
  specialize (H (Some (sample_item None))
                (Some {| ad_level := None; ad_spellLevel := Some 11%Z |})).
  vm_compute in H. discriminate H.
Qed.

(** C9 (amended): only the first damage part is used; its formula is
    rewritten by [scaleDiceFormula] with increment [floor((L+1)/6)], where
    [L] is the actor's [details.level], else its [details.spellLevel], else
    1, and [L] is a safe integer (absolute value at most [2^53 - 1], where
    [Math.floor((L + 1) / 6)] on doubles is the exact integer quotient);
    the type is the first part's type; without damage parts the result is
    [{parts: [], type: null}]. *)
Theorem scaleCantripDamage_first_part : forall cantrip details,
  let L := match details with
           | Some d => match ad_level d, ad_spellLevel d with
                       | Some l, _ => l
                       | None, Some l => l
                       | None, None => 1%Z
                       end
           | None => 1%Z
           end in
  is_safe_integer L ->
  _scaleCantripDamage cantrip details =
  match (match cantrip with Some c => parts_of c | None => [] end) with
  | [] => {| cd_parts := []; cd_type := None |}
  | part :: _ =>
      {| cd_parts := [scaleDiceFormula (p_formula part) (JNum (Z.div (L + 1) 6))];
         cd_type := p_type part |}
  end%list.
Proof.
  intros cantrip details L _. subst L. unfold _scaleCantripDamage.
  destruct (match cantrip with Some c => parts_of c | None => [] end%list)
    as [|part rest]; [reflexivity|].
  destruct details as [[[l|] [s|]]|]; reflexivity.
Qed.

Lemma scaleCantripDamage_first_part_witness :
  _scaleCantripDamage (Some (sample_item None))
    (Some {| ad_level := None; ad_spellLevel := Some 11%Z |})
  = {| cd_parts := ["3d6"]; cd_type := Some "fire" |}.
Proof.
  rewrite (scaleCantripDamage_first_part (Some (sample_item None))
             (Some {| ad_level := None; ad_spellLevel := Some 11%Z |})).
  - vm_compute. reflexivity.
  - unfold is_safe_integer, max_safe_integer. vm_compute. split; intros Hc; discriminate Hc.
Defined.

(** ** [createSaveButtons] *)

(** C10 (failing input): with [saves = ["toString"]], a key that is not
    an ability of the configuration, [createSaveButtons] still produces a
    button for it: [abi in CONFIG.abilities] also holds for the properties
    the abilities object inherits from [Object.prototype]. *)
Theorem createSaveButtons_inherited_key :
  js_in "toString" (map fst (sys_abilities dnd_config)) = true /\
  existsb (fun kv => String.eqb (fst kv) "toString") (sys_abilities dnd_config) = false /\
  createSaveButtons dnd_config (save_item ["toString"]) =
    Some [{| sb_ability := "toString"; sb_dc := 14; sb_label := None |}].
Proof. vm_compute. repeat split. Qed.

(** ** Hook handlers *)

(** C7 (failing input): the [renderChatMessage] handler has no [try]; when
    the host passes the rendered message as a jQuery object, the call
    [html.querySelectorAll] throws out of the handler. The sibling handler
    [createConfigButton] accepts the same argument and never throws. *)
Theorem chatLogListeners_uncaught :
  let ns := [{| n_action := Some "rollgroup-damage"; n_has_dc := false;
                n_classes := []; n_name := None |}] in
  createChatLogListeners (HJQuery ns)
    = Throw "TypeError: html.querySelectorAll is not a function" /\
  createChatLogListeners (HElement ns) = Ret [AddListener 0 "rollDamageFromChat"] /\
  (forall html, exists r, createConfigButton html = Ret r).
Proof.
  split; [reflexivity|]. split; [reflexivity|].
  intros html. eexists. reflexivity.
Qed.

(* ================================================================== *)
(** * Further properties of the module *)

(** ** Printing and re-reading a dice count *)

Lemma digits_string_of_uint : forall d acc,
  digits_value_acc acc (NilEmpty.string_of_uint d) = uint_val_acc acc d.
Proof. induction d; intros acc; simpl; try reflexivity; apply IHd. Qed.

Lemma all_digits_string_of_uint : forall d,
  all_chars is_digit (NilEmpty.string_of_uint d) = true.
Proof. induction d; simpl; try reflexivity; exact IHd. Qed.

Lemma of_uint_acc_val : forall d p,
  Zpos (Pos.of_uint_acc d p) = uint_val_acc (Zpos p) d.
Proof.
  induction d; intros p; cbn [Pos.of_uint_acc uint_val_acc]; try reflexivity;
    rewrite IHd; f_equal; rewrite ?Pos2Z.inj_add, Pos2Z.inj_mul; lia.
Qed.

Lemma of_uint_val : forall d, Z.of_N (Pos.of_uint d) = uint_val_acc 0 d.
Proof.
  induction d; simpl; try reflexivity; try exact IHd;
    rewrite of_uint_acc_val; reflexivity.
Qed.

Lemma js_number_string_roundtrip : forall z, (0 <= z)%Z ->
  js_number_to_string z <> "" /\
  all_chars is_digit (js_number_to_string z) = true /\
  js_Number_digits (js_number_to_string z) = z.
Proof.
  intros [|p|p] Hz; [vm_compute; repeat split; discriminate | | lia].
  unfold js_number_to_string, js_Number_digits. simpl.
  repeat split.
  - pose proof (Unsigned.to_uint_nonnil p) as H.
    destruct (Pos.to_uint p); simpl; congruence.
  - apply all_digits_string_of_uint.
  - rewrite digits_string_of_uint, <- of_uint_val, Unsigned.of_to. reflexivity.
Qed.

(** A non-negative safe integer printed by [String(n)] (as the dice
    rewrite and the form names do) reads back with [Number]: the text is a
    non-empty run of decimal digits whose value is [n]. *)
Theorem printed_count_reads_back : forall n, (0 <= n)%Z -> is_safe_integer n ->
  js_number_to_string n <> "" /\
  all_chars is_digit (js_number_to_string n) = true /\
  js_Number_digits (js_number_to_string n) = n.
Proof. intros n Hn _. exact (js_number_string_roundtrip n Hn). Qed.

Lemma printed_count_reads_back_witness :
  js_Number_digits (js_number_to_string 1207) = 1207%Z.
Proof.
  exact (proj2 (proj2 (printed_count_reads_back 1207 ltac:(lia)
           ltac:(unfold is_safe_integer, max_safe_integer; lia)))).
Defined.




(** ** [constructParts] and [rollDamageGroup] *)

Lemma constructParts_eq_selected : forall it idx,
  constructParts it idx =
    match selected_parts (parts_of it) (group_raw it idx) with
    | [] => ([NotifyError "ROLLGROUPS.RollGroupEmpty"], CPFalse)
    | sel => ([], CPParts sel)
    end%list.
Proof.
  intros it idx.
  unfold constructParts, selected_parts. fold (group_raw it idx).
  change 0%Z with (Z.of_nat 0).
  rewrite reduce_idx_select. simpl app.
  rewrite (filter_ext _ (fun ip => listed (group_raw it idx) (fst ip)))
    by (intros [i p]; apply set_has_listed).
  now destruct (map snd _).
Qed.

(** [constructParts] depends only on which positions of the parts array
    are listed: two items with the same damage parts whose selected groups
    list the same positions (in any order, with duplicates or extra
    out-of-range entries) give the same result. *)
Theorem constructParts_listed_positions_only : forall it1 idx1 it2 idx2,
  parts_of it1 = parts_of it2 ->
  (forall i, (i < length (parts_of it1))%nat ->
             listed (group_raw it1 idx1) i = listed (group_raw it2 idx2) i) ->
  constructParts it1 idx1 = constructParts it2 idx2.
Proof.
  intros it1 idx1 it2 idx2 Hp Hl.
  rewrite !constructParts_eq_selected.
  replace (selected_parts (parts_of it1) (group_raw it1 idx1))
    with (selected_parts (parts_of it2) (group_raw it2 idx2)); [reflexivity|].
  unfold selected_parts. rewrite <- Hp. f_equal.
  apply filter_ext_in. intros [i p] Hin.
  apply in_combine_seq_lt in Hin. simpl. symmetry. apply Hl. lia.
Qed.

Lemma constructParts_listed_positions_only_witness :
  constructParts (sample_item (Some [{| g_label := None;
                                        g_parts := Some [JNum 1; JNum 0; JNum 1] |}])) 0
  = constructParts (sample_item (Some [{| g_label := None;
                                          g_parts := Some [JNum 0; JNum 9; JNum 1] |}])) 0.
Proof.
  apply constructParts_listed_positions_only; [reflexivity|].
  intros i Hi. simpl in Hi.
  destruct i as [|[|i]]; [reflexivity | reflexivity | lia].
Defined.

Lemma subseq_filter_combine : forall {A} (f : nat * A -> bool) (l : list A) k,
  subseq (map snd (filter f (combine (seq k (length l)) l))) l.
Proof.
  intros A f. induction l as [|x l IH]; intros k; simpl.
  - constructor.
  - destruct (f (k, x)); simpl; constructor; apply IH.
Qed.

Lemma constructParts_cases : forall it idx,
  constructParts it idx = ([NotifyError "ROLLGROUPS.RollGroupEmpty"], CPFalse)
  \/ exists ps, constructParts it idx = ([], CPParts ps) /\ ps <> [] /\
                subseq ps (parts_of it).
Proof.
  intros it idx. rewrite constructParts_eq_selected.
  pose proof (subseq_filter_combine (fun ip => listed (group_raw it idx) (fst ip))
                (parts_of it) 0) as Hs.
  unfold selected_parts in *.
  destruct (map snd _) as [|p ps]; [now left|].
  right. exists (p :: ps). split; [reflexivity|]. split; [discriminate | exact Hs].
Qed.

(** [constructParts] either raises exactly one "RollGroupEmpty"
    notification and returns [false], or raises none and returns a
    non-empty subsequence of the item's damage parts (kept in their array
    order). *)
Theorem constructParts_outcomes : forall it idx,
  constructParts it idx = ([NotifyError "ROLLGROUPS.RollGroupEmpty"], CPFalse)
  \/ exists ps, constructParts it idx = ([], CPParts ps) /\ ps <> [] /\
                subseq ps (parts_of it).
Proof. exact constructParts_cases. Qed.

(** When groups are configured and the selected group lists at least one
    index, [rollDamageGroup] rolls a clone holding exactly the selected
    parts with the caller's arguments, or, when no listed index names an
    existing part, raises "RollGroupEmpty" and resolves to [null]. *)
Theorem rollDamageGroup_selected_clone : forall it rollgroup args,
  groups_of it <> [] -> group_raw it rollgroup <> [] ->
  rollDamageGroup it rollgroup args =
    match selected_parts (parts_of it) (group_raw it rollgroup) with
    | [] => ([NotifyError "ROLLGROUPS.RollGroupEmpty"], RNull)
    | sel => ([], RRollDamage (OnClone sel) args)
    end%list.
Proof.
  intros it rollgroup args Hg Hr.
  unfold rollDamageGroup. rewrite constructParts_eq_selected.
  destruct (groups_of it) as [|g0 gs] eqn:Eg; [congruence|].
  unfold group_raw in Hr. rewrite Eg in Hr.
  destruct (js_index (g0 :: gs) rollgroup) as [g|]; [|congruence].
  destruct (g_parts g) as [[|x r]|]; try congruence.
  now destruct (selected_parts _ _).
Qed.

Lemma rollDamageGroup_selected_clone_witness :
  rollDamageGroup (sample_item (Some [{| g_label := None; g_parts := Some [JNum 1] |}]))
    0 sample_args
  = ([], RRollDamage (OnClone [{| p_formula := "2d4"; p_type := Some "cold" |}])
           sample_args).
Proof.
  rewrite rollDamageGroup_selected_clone; [reflexivity | discriminate | discriminate].
Defined.

(** Every outcome of [rollDamageGroup]: it passes the caller's arguments
    unchanged to a [rollDamage] call on the item itself or on a clone with
    a non-empty parts list, raising no notification, or it raises exactly
    one "RollGroupEmpty" notification and resolves to [null]. It never
    rolls a clone without damage parts. *)
Theorem rollDamageGroup_outcomes : forall it rollgroup args,
  rollDamageGroup it rollgroup args = ([], RRollDamage OnItem args)
  \/ (exists ps, ps <> [] /\
        rollDamageGroup it rollgroup args = ([], RRollDamage (OnClone ps) args))
  \/ rollDamageGroup it rollgroup args
     = ([NotifyError "ROLLGROUPS.RollGroupEmpty"], RNull).
Proof.
  intros it rollgroup args. unfold rollDamageGroup.
  destruct (groups_of it) as [|g0 gs]; [now left|].
  destruct (match js_index (g0 :: gs) rollgroup with
            | Some g => g_parts g | None => None end) as [[|x r]|];
    try (right; right; reflexivity).
  destruct (constructParts_cases it rollgroup) as [E | (ps & E & Hne & _)];
    rewrite E; [right; right; reflexivity|].
  right; left. now exists ps.
Qed.

(** ** [createDamageButtons] and [createSaveButtons] *)

Lemma reduce_idx_append_map : forall {A B} (f : A -> Z -> B) (l : list A) acc k,
  reduce_idx (fun acc x i => (acc ++ [f x i])%list) acc l (Z.of_nat k)
  = (acc ++ map (fun ix => f (snd ix) (Z.of_nat (fst ix)))
                (combine (seq k (length l)) l))%list.
Proof.
  intros A B f. induction l as [|x l IH]; intros acc k; simpl.
  - now rewrite app_nil_r.
  - replace (Z.of_nat k + 1)%Z with (Z.of_nat (S k)) by lia.
    rewrite IH, <- app_assoc. reflexivity.
Qed.

Lemma nth_error_map_combine_seq : forall {A B} (f : nat * A -> B) (l : list A) k i,
  nth_error (map f (combine (seq k (length l)) l)) i
  = option_map (fun x => f (k + i, x)%nat) (nth_error l i).
Proof.
  intros A B f. induction l as [|x l IH]; intros k i; simpl.
  - now destruct i.
  - destruct i as [|i]; simpl.
    + now rewrite Nat.add_0_r.
    + rewrite IH. now replace (S k + i)%nat with (k + S i)%nat by lia.
Qed.

Lemma createDamageButtons_buttons_nth : forall sys it bs,
  createDamageButtons sys it = Some bs ->
  length bs = length (groups_of it) /\
  forall i g, nth_error (groups_of it) i = Some g ->
    exists b, nth_error bs i = Some b /\ db_group b = Z.of_nat i /\
              b = make_damage_button sys
                    (filter (fun p => str_truthy (p_formula p)) (parts_of it))
                    g (Z.of_nat i).
Proof.
  intros sys it bs H. unfold createDamageButtons in H.
  destruct (negb _); [discriminate|].
  injection H as <-.
  change 0%Z with (Z.of_nat 0). rewrite reduce_idx_append_map. simpl app.
  split.
  - rewrite length_map, length_combine, length_seq. lia.
  - intros i g Hg. rewrite nth_error_map_combine_seq, Hg. simpl.
    eexists. split; [reflexivity|]. split; reflexivity.
Qed.

(** When [createDamageButtons] produces buttons, button [i] belongs to
    configured group [i]: there is one button per group, in order, with
    [data-group] set to the group's index. *)
Theorem createDamageButtons_one_per_group : forall sys it bs,
  createDamageButtons sys it = Some bs ->
  length bs = length (groups_of it) /\
  forall i g, nth_error (groups_of it) i = Some g ->
    exists b, nth_error bs i = Some b /\ db_group b = Z.of_nat i /\
              b = make_damage_button sys
                    (filter (fun p => str_truthy (p_formula p)) (parts_of it))
                    g (Z.of_nat i).
Proof. exact createDamageButtons_buttons_nth. Qed.

Lemma createDamageButtons_one_per_group_witness :
  exists b, createDamageButtons dnd_config
              (sample_item (Some [{| g_label := Some "A"; g_parts := Some [JNum 0] |};
                                  {| g_label := None; g_parts := None |}]))
            = Some [{| db_group := 0; db_kind := BDamage; db_label := Some "A" |}; b] /\
            db_group b = 1%Z.
Proof.
  destruct (createDamageButtons_one_per_group dnd_config
              (sample_item (Some [{| g_label := Some "A"; g_parts := Some [JNum 0] |};
                                  {| g_label := None; g_parts := None |}]))
              [{| db_group := 0; db_kind := BDamage; db_label := Some "A" |};
               {| db_group := 1; db_kind := BDamage; db_label := None |}]
              eq_refl) as [_ H].
  destruct (H 1%nat {| g_label := None; g_parts := None |} eq_refl) as (b & Hb & Hg & _).
  exists b. simpl in Hb. injection Hb as <-. split; [reflexivity | exact Hg].
Defined.

(** A configured group whose parts list is missing or empty still gets a
    button, classified as damage: [every] over no types holds. *)
Theorem createDamageButtons_empty_group_is_damage : forall sys it bs i g,
  createDamageButtons sys it = Some bs ->
  nth_error (groups_of it) i = Some g ->
  (g_parts g = None \/ g_parts g = Some []) ->
  exists b, nth_error bs i = Some b /\ db_kind b = BDamage.
Proof.
  intros sys it bs i g H Hg He.
  destruct (createDamageButtons_buttons_nth sys it bs H) as [_ Hb].
  destruct (Hb i g Hg) as (b & Hnth & _ & ->).
  exists (make_damage_button sys (filter (fun p => str_truthy (p_formula p)) (parts_of it))
            g (Z.of_nat i)).
  split; [exact Hnth|].
  unfold make_damage_button. destruct He as [E|E]; rewrite E; reflexivity.
Qed.

Lemma createDamageButtons_empty_group_is_damage_witness :
  exists b, nth_error
     (match createDamageButtons dnd_config
              (sample_item (Some [{| g_label := None; g_parts := Some [] |}])) with
      | Some bs => bs | None => [] end) 0 = Some b /\ db_kind b = BDamage.
Proof.
  apply (createDamageButtons_empty_group_is_damage dnd_config
           (sample_item (Some [{| g_label := None; g_parts := Some [] |}]))
           _ 0 {| g_label := None; g_parts := Some [] |});
    [reflexivity | reflexivity | right; reflexivity].
Defined.

(** When [createSaveButtons] returns buttons, there is at least one, each
    is for an ability key listed in the item's [saves] configuration (in
    that order) other than the item's own save ability, and each carries
    the item's save DC. *)
Theorem createSaveButtons_buttons : forall sys it bs,
  createSaveButtons sys it = Some bs ->
  bs <> [] /\
  it_hasSave it = true /\
  Forall (fun b => neq_save (sb_ability b) (it_save_ability it) = true /\
                   sb_dc b = it_saveDC it) bs /\
  subseq (map sb_ability bs)
    (match it_config it with
     | Some c => match c_saves c with Some l => l | None => [] end
     | None => []
     end)%list.
Proof.
  intros sys it bs H. unfold createSaveButtons in H.
  destruct (it_hasSave it); [|discriminate].
  set (configured := match it_config it with
                     | Some c => match c_saves c with Some l => l | None => [] end
                     | None => [] end%list) in *.
  set (keep := fun abi => neq_save abi (it_save_ability it)
                          && js_in abi (map fst (sys_abilities sys))) in *.
  assert (Hsub : subseq (filter keep configured) configured).
  { clear H. induction configured as [|x l IH]; simpl; [constructor|].
    destruct (keep x); constructor; exact IH. }
  assert (Hall : Forall (fun abi => keep abi = true) (filter keep configured)).
  { apply Forall_forall. intros x Hx. now apply filter_In in Hx as [_ Hx]. }
  destruct (filter keep configured) as [|a l] eqn:E; [discriminate|].
  injection H as <-.
  split; [discriminate|]. split; [reflexivity|]. split.
  - apply Forall_forall. intros b Hb.
    assert (Hx : exists abi, In abi (a :: l) /\ sb_ability b = abi /\
                             sb_dc b = it_saveDC it).
    { destruct Hb as [<-|Hb]; [exists a; simpl; auto|].
      apply in_map_iff in Hb as (x & <- & Hx). exists x. simpl; auto. }
    destruct Hx as (abi & Hin & -> & Hdc).
    rewrite Forall_forall in Hall. specialize (Hall abi Hin).
    unfold keep in Hall. apply andb_prop in Hall as [Hk _]. auto.
  - simpl. rewrite map_map. simpl. rewrite map_id. exact Hsub.
Qed.

Lemma createSaveButtons_buttons_witness :
  exists bs, createSaveButtons dnd_config (save_item ["dex"; "wis"; "con"]) = Some bs /\
             map sb_ability bs = ["wis"; "con"].
Proof.
  destruct (createSaveButtons_buttons dnd_config (save_item ["dex"; "wis"; "con"])
              [{| sb_ability := "wis"; sb_dc := 14; sb_label := Some "Wisdom" |};
               {| sb_ability := "con"; sb_dc := 14; sb_label := Some "Constitution" |}]
              eq_refl) as (_ & _ & _ & _).
  eexists. split; reflexivity.
Defined.
(** ** Configuration forms *)

Lemma existsb_saved_keys : forall entries k,
  existsb (String.eqb k) (saveConfig_submit entries)
  = existsb (fun e => String.eqb (fst e) k && snd e) entries.
Proof.
  unfold saveConfig_submit. induction entries as [|[k' v] entries IH]; intros k;
    simpl; [reflexivity|].
  rewrite (String.eqb_sym k' k).
  destruct v; simpl; rewrite IH, ?andb_true_r, ?andb_false_r; reflexivity.
Qed.

(** Saving the extra-saves form and reopening it: the checkbox of each
    ability is checked exactly when the form was submitted with that
    ability's box checked. *)
Theorem saveConfig_roundtrip : forall abilities save entries,
  map sr_value (saveConfig_context abilities save (Some (saveConfig_submit entries)))
  = map (fun kd => existsb (fun e => String.eqb (fst e) (fst kd) && snd e) entries)
        abilities.
Proof.
  intros abilities save entries. unfold saveConfig_context.
  rewrite map_map. apply map_ext. intros kd. simpl.
  apply existsb_saved_keys.
Qed.

Lemma listed_submitted_keys : forall (entries : list (nat * bool)) j,
  listed (map (fun kv => JNum (js_Number_digits (fst kv)))
              (filter snd (map (fun jv => (js_number_to_string (Z.of_nat (fst jv)), snd jv))
                               entries))) j
  = existsb (fun jv => Nat.eqb (fst jv) j && snd jv) entries.
Proof.
  induction entries as [|[a v] entries IH]; intros j; [reflexivity|].
  specialize (IH j). destruct v; simpl in *.
  - unfold listed in *. simpl. rewrite IH, andb_true_r.
    destruct (js_number_string_roundtrip (Z.of_nat a)) as (_ & _ & ->); [lia|].
    simpl. f_equal.
    destruct (Nat.eqb_spec a j), (Z.eqb_spec (Z.of_nat a) (Z.of_nat j)); lia.
  - now rewrite IH, andb_false_r.
Qed.

(** Saving the roll-group form and reopening it: for each submitted group
    [i], whose checkboxes are keyed by part index, the row of part [j] is
    checked exactly when the box for [j] was submitted checked, and it is
    named after group [i] and part [j] again. *)
Theorem groupConfig_roundtrip : forall placeholder fgs i fg entries nparts j,
  nth_error fgs i = Some fg ->
  fg_parts fg = Some (map (fun jv => (js_number_to_string (Z.of_nat (fst jv)), snd jv))
                          entries) ->
  (j < nparts)%nat ->
  exists g, nth_error (groupConfig_submit placeholder fgs) i = Some g /\
    nth_error (groupConfig_rows nparts i g) j =
      Some {| gr_checked := existsb (fun jv => Nat.eqb (fst jv) j && snd jv) entries;
              gr_name := "flags.rollgroups.config.groups."
                         ++ js_number_to_string (Z.of_nat i) ++ ".parts."
                         ++ js_number_to_string (Z.of_nat j) |}.
Proof.
  intros placeholder fgs i fg entries nparts j Hi Hp Hj.
  unfold groupConfig_submit. rewrite nth_error_map, Hi. simpl.
  eexists. split; [reflexivity|].
  unfold groupConfig_rows. simpl. rewrite Hp.
  rewrite nth_error_map, nth_error_seq.
  destruct (Nat.ltb_spec j nparts); [|lia]. simpl.
  rewrite listed_submitted_keys. reflexivity.
Qed.

Lemma groupConfig_roundtrip_witness :
  exists g, nth_error (groupConfig_submit "Group"
               [{| fg_label := None;
                   fg_parts := Some [("0", false); ("1", true); ("2", true)] |}]) 0 = Some g /\
    nth_error (groupConfig_rows 3 0 g) 2 =
      Some {| gr_checked := true; gr_name := "flags.rollgroups.config.groups.0.parts.2" |}.
Proof.
  exact (groupConfig_roundtrip "Group"
           [{| fg_label := None;
               fg_parts := Some [("0", false); ("1", true); ("2", true)] |}]
           0 _ [(0%nat, false); (1%nat, true); (2%nat, true)] 3 2 eq_refl eq_refl
           ltac:(lia)).
Defined.

(** ** Adding and deleting groups *)

Lemma groups_of_set_groups : forall it gs, groups_of (set_groups it gs) = gs.
Proof. intros it gs. unfold groups_of, set_groups. now destruct (it_config it). Qed.

Lemma parts_of_set_groups : forall it gs, parts_of (set_groups it gs) = parts_of it.
Proof. reflexivity. Qed.

Lemma groups_of_onAddGroup : forall it,
  groups_of (onAddGroup it)
  = (groups_of it ++ [{| g_label := Some ""; g_parts := Some [] |}])%list.
Proof. intros it. apply groups_of_set_groups. Qed.

Lemma js_index_app_lt : forall {A} (l : list A) x i,
  (0 <= i < Z.of_nat (length l))%Z -> js_index (l ++ [x])%list i = js_index l i.
Proof.
  intros A l x i Hi. unfold js_index.
  destruct (Z.leb_spec 0 i); [|reflexivity].
  apply nth_error_app1. lia.
Qed.

(** Adding a group appends exactly one group, with an empty label and an
    empty parts list, after the existing ones, and keeps the damage parts.
    Rolling any existing group gives what it gave before; rolling the new
    group raises "RollGroupEmpty" and resolves to [null]. *)
Theorem onAddGroup_new_group_empty : forall it args,
  groups_of (onAddGroup it)
    = (groups_of it ++ [{| g_label := Some ""; g_parts := Some [] |}])%list /\
  parts_of (onAddGroup it) = parts_of it /\
  (forall i, (0 <= i < Z.of_nat (length (groups_of it)))%Z ->
     rollDamageGroup (onAddGroup it) i args = rollDamageGroup it i args) /\
  rollDamageGroup (onAddGroup it) (Z.of_nat (length (groups_of it))) args
  = ([NotifyError "ROLLGROUPS.RollGroupEmpty"], RNull).
Proof.
  intros it args. split; [apply groups_of_onAddGroup|].
  split; [reflexivity|]. split.
  - intros i Hi.
    assert (Hc : constructParts (onAddGroup it) i = constructParts it i).
    { unfold constructParts. rewrite groups_of_onAddGroup, js_index_app_lt by exact Hi.
      reflexivity. }
    pose proof (js_index_app_lt (groups_of it)
                  {| g_label := Some ""; g_parts := Some [] |} i Hi) as Hj.
    unfold rollDamageGroup. rewrite Hc, groups_of_onAddGroup.
    destruct (groups_of it) as [|g gs]; [simpl in Hi; lia|].
    cbn [app] in Hj |- *. rewrite Hj. reflexivity.
  - unfold rollDamageGroup. rewrite groups_of_onAddGroup.
    destruct (groups_of it ++ _)%list as [|g gs] eqn:E.
    { destruct (groups_of it); discriminate. }
    rewrite <- E. unfold js_index.
    destruct (Z.leb_spec 0 (Z.of_nat (length (groups_of it)))); [|lia].
    rewrite Nat2Z.id, nth_error_app2, Nat.sub_diag by lia. reflexivity.
Qed.

Lemma onAddGroup_new_group_empty_witness :
  let it := sample_item (Some [{| g_label := Some "A"; g_parts := Some [JNum 1] |}]) in
  rollDamageGroup (onAddGroup it) 0 sample_args = rollDamageGroup it 0 sample_args /\
  rollDamageGroup (onAddGroup it) 0 sample_args
  = ([], RRollDamage (OnClone [{| p_formula := "2d4"; p_type := Some "cold" |}])
                     sample_args).
Proof.
  intros it.
  destruct (onAddGroup_new_group_empty it sample_args) as (_ & _ & Hold & _).
  assert (E : rollDamageGroup (onAddGroup it) 0 sample_args
              = rollDamageGroup it 0 sample_args) by (apply Hold; simpl; lia).
  split; [exact E|]. rewrite E. reflexivity.
Defined.

(** Deleting group [k] with [0 <= k < n]: the other groups are kept in
    order and group [k] is gone. *)
Theorem onDeleteGroup_in_range : forall it k,
  (0 <= k < Z.of_nat (length (groups_of it)))%Z ->
  length (groups_of (onDeleteGroup it (JNum k))) = pred (length (groups_of it)) /\
  forall i, nth_error (groups_of (onDeleteGroup it (JNum k))) i =
            if (Z.of_nat i <? k)%Z then nth_error (groups_of it) i
            else nth_error (groups_of it) (S i).
Proof.
  intros it k Hk. unfold onDeleteGroup. rewrite groups_of_set_groups.
  unfold splice1, splice_start.
  set (gs := groups_of it) in *.
  destruct (Z.ltb_spec k 0); [lia|].
  rewrite Z.min_l by lia.
  split.
  - rewrite length_app, length_firstn, length_skipn. lia.
  - intros i. destruct (Z.ltb_spec (Z.of_nat i) k).
    + rewrite nth_error_app1 by (rewrite length_firstn; lia).
      rewrite nth_error_firstn. destruct (Nat.ltb_spec i (Z.to_nat k)); [reflexivity|lia].
    + rewrite nth_error_app2 by (rewrite length_firstn; lia).
      rewrite nth_error_skipn, length_firstn.
      f_equal. lia.
Qed.

Lemma onDeleteGroup_in_range_witness :
  groups_of (onDeleteGroup (sample_item (Some [{| g_label := Some "A"; g_parts := None |};
                                               {| g_label := Some "B"; g_parts := None |}]))
               (JNum 0))
  = [{| g_label := Some "B"; g_parts := None |}].
Proof.
  destruct (onDeleteGroup_in_range
              (sample_item (Some [{| g_label := Some "A"; g_parts := None |};
                                  {| g_label := Some "B"; g_parts := None |}])) 0)
    as [Hl Hn]; [simpl; lia|].
  reflexivity.
Defined.

(** Deleting with no usable index ([data-idx] missing, so [Number]
    gives [NaN]) removes the first group; an index at or past the end
    removes nothing; a negative index [-m] with [m <= n] removes group
    [n - m]. *)
Theorem onDeleteGroup_edge_indices : forall it,
  groups_of (onDeleteGroup it JNaN) = tl (groups_of it) /\
  groups_of (onDeleteGroup it JUndefined) = tl (groups_of it) /\
  (forall k, (Z.of_nat (length (groups_of it)) <= k)%Z ->
     groups_of (onDeleteGroup it (JNum k)) = groups_of it) /\
  (forall m, (0 < m <= Z.of_nat (length (groups_of it)))%Z ->
     groups_of (onDeleteGroup it (JNum (- m))) =
     groups_of (onDeleteGroup it (JNum (Z.of_nat (length (groups_of it)) - m)))).
Proof.
  intros it. unfold onDeleteGroup.
  split; [|split; [|split]]; intros; rewrite ?groups_of_set_groups;
    unfold splice1, splice_start; set (gs := groups_of it) in *.
  - destruct gs; reflexivity.
  - destruct gs; reflexivity.
  - destruct (Z.ltb_spec k 0); [lia|].
    rewrite Z.min_r by lia. rewrite Nat2Z.id, firstn_all, skipn_all2 by lia.
    apply app_nil_r.
  - destruct (Z.ltb_spec (- m) 0); [|lia].
    destruct (Z.ltb_spec (Z.of_nat (length gs) - m) 0); [lia|].
    rewrite Z.max_l, Z.min_l by lia. reflexivity.
Qed.

Lemma onDeleteGroup_edge_indices_witness :
  groups_of (onDeleteGroup (sample_item (Some [{| g_label := Some "A"; g_parts := None |};
                                               {| g_label := Some "B"; g_parts := None |}]))
               (JNum (-1)))
  = [{| g_label := Some "A"; g_parts := None |}].
Proof.
  destruct (onDeleteGroup_edge_indices
              (sample_item (Some [{| g_label := Some "A"; g_parts := None |};
                                  {| g_label := Some "B"; g_parts := None |}])))
    as (_ & _ & _ & Hneg).
  pose proof (Hneg 1%Z ltac:(simpl; lia)) as E. cbn [Z.opp] in E.
  rewrite E. reflexivity.
Defined.

(** ** [variantDamageLabels] and cantrip scaling *)

(** Cantrip scaling by character level, for levels 0 to 22: the first
    damage formula gains one die at each of the levels 5, 11 and 17, and is
    left unchanged below level 5. *)
Theorem scaleCantripDamage_tiers : forall c d part rest L,
  parts_of c = (part :: rest)%list -> ad_level d = Some L -> (0 <= L <= 22)%Z ->
  let tier := ((if (5 <=? L)%Z then 1 else 0) + (if (11 <=? L)%Z then 1 else 0)
               + (if (17 <=? L)%Z then 1 else 0))%Z in
  cd_parts (_scaleCantripDamage (Some c) (Some d))
  = [scaleDiceFormula (p_formula part) (JNum tier)] /\
  ((L < 5)%Z -> cd_parts (_scaleCantripDamage (Some c) (Some d)) = [p_formula part]).
Proof.
  intros c d part rest L Hp Hl HL tier. unfold _scaleCantripDamage.
  rewrite Hp, Hl. simpl. f_equal.
  assert (Ht : ((L + 1) / 6)%Z = tier).
  { unfold tier.
    destruct (Z.leb_spec 5 L), (Z.leb_spec 11 L), (Z.leb_spec 17 L); try lia;
      symmetry; apply (Z.div_unique_pos _ _ _ (L + 1 - 6 * tier)); unfold tier; lia. }
  rewrite Ht. split; [reflexivity|].
  intros HL5. unfold tier. destruct (Z.leb_spec 5 L); [lia|].
  destruct (Z.leb_spec 11 L); [lia|]. destruct (Z.leb_spec 17 L); [lia|].
  reflexivity.
Qed.

Lemma filter_neq_nil_forallb : forall x m,
  Nat.eqb (length (filter (fun y => negb (String.eqb x y)) m)) 0
  = forallb (String.eqb x) m.
Proof.
  intros x m. induction m as [|y m IH]; [reflexivity|]. simpl.
  destruct (String.eqb x y); simpl; [exact IH|reflexivity].
Qed.

Lemma forallb_filter_neq : forall (f : string -> bool) x m,
  f x && forallb f (filter (fun y => negb (String.eqb x y)) m) = f x && forallb f m.
Proof.
  intros f x m. induction m as [|y m IH]; [reflexivity|]. simpl.
  destruct (String.eqb_spec x y) as [<-|]; simpl.
  - destruct (f x); [exact IH|reflexivity].
  - destruct (f x), (f y); simpl; [exact IH|reflexivity..].
Qed.

Lemma forallb_dedup : forall (f : string -> bool) l,
  forallb f (dedup l) = forallb f l.
Proof.
  intros f l. induction l as [|x l IH]; [reflexivity|]. simpl.
  rewrite forallb_filter_neq, IH. reflexivity.
Qed.

Lemma dedup_single_temphp : forall l,
  Nat.eqb (length (dedup l)) 1 && existsb (String.eqb "temphp") (dedup l)
  = match l with [] => false | _ => forallb (String.eqb "temphp") l end%list.
Proof.
  intros [|x l]; [reflexivity|]. cbn [dedup length existsb forallb].
  pose proof (filter_neq_nil_forallb x (dedup l)) as H.
  rewrite <- (forallb_dedup _ l).
  destruct (filter (fun y => negb (String.eqb x y)) (dedup l)) as [|r rs];
    cbn [length existsb Nat.eqb andb] in *.
  - rewrite orb_false_r.
    destruct (String.eqb_spec "temphp" x) as [<-|]; [|reflexivity].
    cbn [forallb andb]. exact H.
  - destruct (String.eqb_spec "temphp" x) as [<-|]; [|reflexivity].
    cbn [forallb andb]. exact H.
Qed.

(** [variantDamageLabels] without its [Set]: the title uses the healing
    key when every derived damage type is a key (own or inherited) of the
    healing types, the damage key otherwise; the flavor carries the
    temporary-HP suffix exactly when there is a derived type and all of
    them are ["temphp"], and otherwise the item's damage-type labels when
    non-empty. Repeated types change nothing. *)
Theorem variantDamageLabels_spec : forall loc sysKey sys it,
  let types := vd_derived_types it in
  let title := (vd_name it ++ " - "
                ++ loc (if forallb (fun t => js_in t (sys_healingTypes sys)) types
                        then sysKey ++ ".Healing" else sysKey ++ ".DamageRoll"))%string in
  variantDamageLabels loc sysKey sys (Some it)
  = Some (title,
          if match types with [] => false | _ => forallb (String.eqb "temphp") types end%list
          then (title ++ " (" ++ loc (sysKey ++ ".Temp") ++ ")")%string
          else match vd_damageTypes_label it with
               | Some l => if Nat.ltb 0 (String.length l)
                           then (title ++ " (" ++ l ++ ")")%string else title
               | None => title
               end).
Proof.
  intros loc sysKey sys it types title. unfold variantDamageLabels.
  rewrite dedup_single_temphp, forallb_dedup. reflexivity.
Qed.

(** ** Picking a weapon *)

Lemma createDamageButtons_some_nonempty : forall sys it bs,
  createDamageButtons sys it = Some bs -> bs <> [].
Proof.
  intros sys it bs H. unfold createDamageButtons in H.
  destruct (negb _) eqn:E; [discriminate|]. injection H as <-.
  change 0%Z with (Z.of_nat 0). rewrite reduce_idx_append_map.
  apply negb_false_iff, andb_prop in E as [E _].
  unfold groups_of. destruct (it_config it) as [c|]; [|discriminate].
  destruct (c_groups c) as [[|g gs]|]; cbn in E |- *; congruence.
Qed.

Lemma html_truthy_none : forall sys it,
  html_truthy (createDamageButtons sys it) = false <-> createDamageButtons sys it = None.
Proof.
  intros sys it. pose proof (createDamageButtons_some_nonempty sys it) as H.
  destruct (createDamageButtons sys it) as [[|b bs]|]; simpl; split; intros E;
    try reflexivity; try discriminate.
  exfalso. now apply (H []).
Qed.

(** [pickEquippedWeapon] rolls damage directly only for an actor with a
    single eligible weapon, a button whose action does not end in
    "attack", and a weapon that is not versatile and has no roll-group
    buttons; it then rolls that weapon with the picker's scaled cantrip
    damage. In every other case with one weapon it attacks or opens the
    picker. *)
Theorem pickEquippedWeapon_damage_iff : forall sys isNPC items action cantrip details w cfg,
  pickEquippedWeapon sys isNPC items action cantrip details = PickDamage w cfg <->
  exists aw, equippedWeapons isNPC items = [aw] /\ ai_item aw = w /\
    ends_with "attack" (match action with Some a => a | None => "" end) = false /\
    ai_isVersatile aw = false /\ createDamageButtons sys w = None /\
    cfg = _scaleCantripDamage cantrip details.
Proof.
  intros sys isNPC items action cantrip details w cfg. unfold pickEquippedWeapon.
  destruct (equippedWeapons isNPC items) as [|aw [|aw' ws]].
  - split; [discriminate|]. intros (aw & H & _). discriminate.
  - destruct (ends_with _ _) eqn:Ea.
    + split; [discriminate|]. intros (x & _ & _ & H & _). discriminate.
    + destruct (ai_isVersatile aw) eqn:Ev; simpl.
      * split; [discriminate|]. intros (x & Hx & _ & _ & H & _).
        injection Hx as ->. congruence.
      * destruct (html_truthy (createDamageButtons sys (ai_item aw))) eqn:Eh.
        -- split; [discriminate|]. intros (x & Hx & Hw & _ & _ & Hn & _).
           injection Hx as <-. subst w. apply html_truthy_none in Hn. congruence.
        -- apply html_truthy_none in Eh. split.
           ++ intros H. injection H as <- <-. exists aw. auto 7.
           ++ intros (x & Hx & Hw & _ & _ & _ & ->). injection Hx as <-. now subst w.
  - split; [discriminate|]. intros (x & H & _). discriminate.
Qed.

Lemma pickEquippedWeapon_damage_iff_witness :
  pickEquippedWeapon dnd_config false
    [{| ai_type := "weapon"; ai_equipped := true; ai_hasAttack := true;
        ai_hasDamage := true; ai_isVersatile := false; ai_item := sample_item None |}]
    (Some "damage") None None
  = PickDamage (sample_item None) {| cd_parts := []; cd_type := None |}.
Proof.
  apply (proj2 (pickEquippedWeapon_damage_iff dnd_config false
    [{| ai_type := "weapon"; ai_equipped := true; ai_hasAttack := true;
        ai_hasDamage := true; ai_isVersatile := false; ai_item := sample_item None |}]
    (Some "damage") None None (sample_item None) {| cd_parts := []; cd_type := None |})).
  eexists. repeat split; reflexivity.
Defined.

(** The weapon [pickEquippedWeapon] attacks or rolls damage with is one of
    the actor's items of type "weapon" with an attack and damage, and it is
    equipped unless the actor is an NPC. *)
Theorem pickEquippedWeapon_target_eligible : forall sys isNPC items action cantrip details w,
  (pickEquippedWeapon sys isNPC items action cantrip details = PickAttack w \/
   exists cfg, pickEquippedWeapon sys isNPC items action cantrip details = PickDamage w cfg) ->
  exists aw, In aw items /\ ai_item aw = w /\ ai_type aw = "weapon" /\
    (isNPC = true \/ ai_equipped aw = true) /\
    ai_hasAttack aw = true /\ ai_hasDamage aw = true.
Proof.
  intros sys isNPC items action cantrip details w H.
  assert (Hin : exists aw, equippedWeapons isNPC items = [aw] /\ ai_item aw = w).
  { unfold pickEquippedWeapon in H.
    destruct (equippedWeapons isNPC items) as [|aw [|aw' ws]];
      [destruct H as [H|[cfg H]]; discriminate| |destruct H as [H|[cfg H]]; discriminate].
    exists aw. split; [reflexivity|].
    repeat match type of H with context [if ?b then _ else _] => destruct b end;
      destruct H as [H|[cfg H]]; try discriminate; now injection H. }
  destruct Hin as (aw & Heq & Hw). exists aw.
  assert (Hf : In aw (equippedWeapons isNPC items)) by (rewrite Heq; left; reflexivity).
  unfold equippedWeapons in Hf. apply filter_In in Hf as [Hi Hp].
  apply andb_prop in Hp as [Hp Hd]. apply andb_prop in Hp as [Hp Ha].
  apply andb_prop in Hp as [Ht He]. apply String.eqb_eq in Ht.
  apply orb_prop in He. auto 7.
Qed.

Lemma pickEquippedWeapon_target_eligible_witness :
  exists aw, In aw [{| ai_type := "weapon"; ai_equipped := false; ai_hasAttack := true;
                       ai_hasDamage := true; ai_isVersatile := false;
                       ai_item := sample_item None |}] /\
    ai_item aw = sample_item None /\ ai_type aw = "weapon" /\
    (true = true \/ ai_equipped aw = true) /\
    ai_hasAttack aw = true /\ ai_hasDamage aw = true.
Proof.
  apply (pickEquippedWeapon_target_eligible dnd_config true
    [{| ai_type := "weapon"; ai_equipped := false; ai_hasAttack := true;
        ai_hasDamage := true; ai_isVersatile := false; ai_item := sample_item None |}]
    (Some "attack") None None (sample_item None)).
  left. reflexivity.
Defined.

(** ** The versatile-group select *)



Lemma scaleCantripDamage_tiers_witness :
  cd_parts (_scaleCantripDamage
              (Some (sample_item None))
              (Some {| ad_level := Some 11%Z; ad_spellLevel := None |}))
  = ["3d6"].
Proof.
  destruct (scaleCantripDamage_tiers (sample_item None)
              {| ad_level := Some 11%Z; ad_spellLevel := None |}
              {| p_formula := "1d6"; p_type := Some "fire" |}
              [{| p_formula := "2d4"; p_type := Some "cold" |}] 11
              eq_refl eq_refl ltac:(lia)) as [H _].
  rewrite H. vm_compute. reflexivity.
Defined.
